(** * simple_user_data: the argument parser and printer of
    [resources/bins/simple_user_data.c]

    The C program is embedded as Rocq functions over an explicit machine
    state (standard output and the one addressable [struct args] object).
    Calls that stop the process ([exit]) and undefined behaviour (a null or
    wild pointer handed to the C library) are outcomes of their own, so that
    every run of [main] evaluates to a result that can be inspected. *)

From Stdlib Require Import ZArith String Ascii List Bool Lia DecimalString.
From Stdlib Require DecimalPos DecimalZ.
Import ListNotations.

Open Scope list_scope.
Open Scope Z_scope.
Open Scope string_scope.

(** ** The C library as the program uses it

    [sscanf], [strlen], [printf] and [exit] come from libc, not from the
    repository.  They are modelled after ISO C and, where ISO C leaves the
    result open (a scanned number that does not fit its object), after glibc
    on LP64: the digits go through [strtol], which saturates at the bounds of
    [long], and a [%d] conversion then narrows to [int]. *)
Module Libc.

Definition NUL : ascii := Ascii.zero.

(** [strlen]: the number of characters before the terminator. *)
Fixpoint strlen (s : string) : Z :=
  match s with
  | EmptyString => 0
  | String c s' => if Ascii.eqb c NUL then 0 else 1 + strlen s'
  end.

(** [s[0]]: the first character, the terminator for the empty string. *)
Definition char0 (s : string) : ascii :=
  match s with
  | EmptyString => NUL
  | String c _ => c
  end.

(** [isspace] in the C locale: space, and \t \n \v \f \r. *)
Definition isspace (c : ascii) : bool :=
  let n := Z.of_N (N_of_ascii c) in
  ((n =? 32) || ((9 <=? n) && (n <=? 13)))%Z.

Definition digit_of (c : ascii) : option Z :=
  let n := Z.of_N (N_of_ascii c) in
  if ((48 <=? n) && (n <=? 57))%Z then Some (n - 48) else None.

Fixpoint skip_spaces (s : string) : string :=
  match s with
  | EmptyString => s
  | String c s' => if isspace c then skip_spaces s' else s
  end.

Fixpoint scan_digits (acc : Z) (s : string) : Z :=
  match s with
  | EmptyString => acc
  | String c s' =>
      match digit_of c with
      | Some d => scan_digits (10 * acc + d) s'
      | None => acc
      end
  end.

(** A non-empty run of decimal digits, or a matching failure. *)
Definition scan_unsigned (s : string) : option Z :=
  match digit_of (char0 s) with
  | Some _ => Some (scan_digits 0 s)
  | None => None
  end.

(** The decimal conversion shared by [%d] and [%ld]: leading white space
    is skipped, one sign is accepted, at least one digit is required.
    [None] is the matching (or input) failure, on which [sscanf] stores
    nothing; trailing characters are left unread. *)
Definition scan_decimal (s : string) : option Z :=
  match skip_spaces s with
  | String "-" s' => option_map Z.opp (scan_unsigned s')
  | String "+" s' => scan_unsigned s'
  | s' => scan_unsigned s'
  end.

Definition LONG_MAX : Z := 2 ^ 63 - 1.
Definition LONG_MIN : Z := - 2 ^ 63.

(** [strtol] saturates out-of-range input. *)
Definition strtol_clamp (z : Z) : Z := Z.max LONG_MIN (Z.min LONG_MAX z).

(** Narrowing a [long] to a 32-bit [int] wraps around. *)
Definition int_of_long (z : Z) : Z := (z + 2 ^ 31) mod 2 ^ 32 - 2 ^ 31.

(** What [sscanf(s, "%ld", &x)] leaves in [x] when [x] held [old]. *)
Definition conv_ld (s : string) (old : Z) : Z :=
  match scan_decimal s with
  | Some z => strtol_clamp z
  | None => old
  end.

(** What [sscanf(s, "%d", &x)] leaves in [x] when [x] held [old]. *)
Definition conv_d (s : string) (old : Z) : Z :=
  match scan_decimal s with
  | Some z => int_of_long (strtol_clamp z)
  | None => old
  end.

(** A [char] promoted to [int] for a variadic call; [char] is signed on
    the targets the fixture is built for. *)
Definition int_of_char (c : ascii) : Z :=
  let n := Z.of_N (N_of_ascii c) in
  if (n <? 128)%Z then n else n - 256.

(** The text [printf("%d", z)] writes. *)
Definition fmt_d (z : Z) : string := NilZero.string_of_int (Z.to_int z).

End Libc.

(** ** Data model *)

(** [enum command]: a C enumeration is an integer; the enumerators number
    from zero.  A field of this type can hold other integers, which is what
    the [default] arm of [print_arg] looks at. *)
Definition command : Type := Z.
Definition OP1 : command := 0.
Definition OP2 : command := 1.
Definition OP3 : command := 2.
Definition OP4 : command := 3.

(** [struct args]. *)
Record args : Type := mk_args {
  value : Z;
  sub_value : ascii;
  cmd : command
}.

Definition set_value (a : args) (v : Z) : args :=
  mk_args v (sub_value a) (cmd a).
Definition set_sub_value (a : args) (c : ascii) : args :=
  mk_args (value a) c (cmd a).
Definition set_cmd (a : args) (k : command) : args :=
  mk_args (value a) (sub_value a) k.

(** A [char *]: null, or the string it points to. *)
Inductive cptr : Type :=
| NULL
| Str (s : string).

(** ** Machine state and outcomes *)

(** Standard output so far, and the [struct args] objects that have an
    address (the local of [main], which [print_arg] receives by pointer);
    an address is a position in [objects]. *)
Record machine : Type := mk_machine {
  stdout : string;
  objects : list args
}.

Definition boot : machine := mk_machine EmptyString [].

Inductive fault : Type :=
| NullDeref      (* a null pointer given to strlen, sscanf or [] *)
| OutOfBounds.   (* a read outside an array or of a dead object *)

Inductive outcome (A : Type) : Type :=
| Ret (a : A) (m : machine)          (* the call returned [a] *)
| Exit (status : Z) (m : machine)    (* [exit(status)] ended the process *)
| Fault (f : fault) (m : machine).   (* undefined behaviour was reached *)

Arguments Ret {A} a m.
Arguments Exit {A} status m.
Arguments Fault {A} f m.

Definition M (A : Type) : Type := machine -> outcome A.

Definition ret {A} (a : A) : M A := fun m => Ret a m.

Definition bind {A B} (c : M A) (k : A -> M B) : M B :=
  fun m =>
    match c m with
    | Ret a m' => k a m'
    | Exit s m' => Exit s m'
    | Fault f m' => Fault f m'
    end.

Notation "x <- c ;; k" := (bind c (fun x => k))
  (at level 61, c at next level, right associativity).
Notation "' p <- c ;; k" := (bind c (fun x => let 'p := x in k))
  (at level 61, p pattern, c at next level, right associativity).
Notation "c ;; k" := (bind c (fun _ => k))
  (at level 61, right associativity).

(** The machine an outcome ends in, whatever the outcome. *)
Definition final {A} (o : outcome A) : machine :=
  match o with
  | Ret _ m | Exit _ m | Fault _ m => m
  end.

(** The status the process ends with when [main] is the computation:
    returning [s] from [main] and calling [exit(s)] are the same. *)
Definition exit_status (o : outcome Z) : option Z :=
  match o with
  | Ret s _ | Exit s _ => Some s
  | Fault _ _ => None
  end.

(** *** Effects *)

Definition printf (text : string) : M unit :=
  fun m => Ret tt (mk_machine (stdout m ++ text) (objects m)).

Definition exit {A} (status : Z) : M A :=
  fun m => Exit status m.

Definition undefined {A} (f : fault) : M A :=
  fun m => Fault f m.

(** [argv[i]]: the tokens sit at [0 .. argc-1] and [argv[argc]] is the null
    pointer that ends the vector; nothing else may be read. *)
Definition argv_at (argv : list string) (i : Z) : M cptr :=
  if (i <? 0)%Z then undefined OutOfBounds
  else match nth_error argv (Z.to_nat i) with
       | Some s => ret (Str s)
       | None =>
           if (i =? Z.of_nat (length argv))%Z then ret NULL
           else undefined OutOfBounds
       end.

Definition strlen (p : cptr) : M Z :=
  match p with
  | NULL => undefined NullDeref
  | Str s => ret (Libc.strlen s)
  end.

(** [p[0]] *)
Definition index0 (p : cptr) : M ascii :=
  match p with
  | NULL => undefined NullDeref
  | Str s => ret (Libc.char0 s)
  end.

(** [sscanf(p, "%d", &x)], returning the content of [x] afterwards. *)
Definition sscanf_d (p : cptr) (x : Z) : M Z :=
  match p with
  | NULL => undefined NullDeref
  | Str s => ret (Libc.conv_d s x)
  end.

(** [sscanf(p, "%ld", &x)], returning the content of [x] afterwards. *)
Definition sscanf_ld (p : cptr) (x : Z) : M Z :=
  match p with
  | NULL => undefined NullDeref
  | Str s => ret (Libc.conv_ld s x)
  end.

(** A [struct args] variable comes to life initialised with [a]; its
    address is returned. *)
Definition alloc (a : args) : M nat :=
  fun m => Ret (length (objects m))
               (mk_machine (stdout m) (objects m ++ [a])%list).

(** [p->field] *)
Definition load {F} (field : args -> F) (p : nat) : M F :=
  fun m =>
    match nth_error (objects m) p with
    | Some a => Ret (field a) m
    | None => Fault OutOfBounds m
    end.

(** ** The program *)

(** [print_arg], lines 18-40. *)
Definition print_arg (p : nat) : M unit :=
  v <- load value p ;;
  (if negb (v =? 0)%Z then
     v' <- load value p ;;
     printf ("value: " ++ Libc.fmt_d v')
   else ret tt) ;;
  c <- load sub_value p ;;
  printf ("sub_value " ++ Libc.fmt_d (Libc.int_of_char c)) ;;
  k <- load cmd p ;;
  match k with
  | 0 => printf "OP1"
  | 1 => printf "OP2"
  | 2 => printf "OP3"
  | 3 => printf "OP4"
  | _ => printf "INVALID" ;; exit 1
  end.

(** [parse_arg] is one straight-line function; it is cut here at the
    places where the source moves from one field to the next, each piece
    taking and returning the locals ([args], [counter]) that are live. *)

(** Lines 43-46: the arity guard. *)
Definition check_argc (argc : Z) : M unit :=
  if negb (argc =? 3)%Z && negb (argc =? 4)%Z then
    printf "Need 2 or 3 args" ;; exit 1
  else ret tt.

(** Lines 47-53: [struct args args; int counter = 1;] and the [value]
    field.  [a] is the content of the uninitialised [args]. *)
Definition read_value (argc : Z) (argv : list string) (a : args)
  : M (args * Z) :=
  let counter := 1 in
  if (argc =? 4)%Z then
    p <- argv_at argv counter ;;
    v <- sscanf_d p (value a) ;;
    ret (set_value a v, counter + 1)
  else
    ret (set_value a 0, counter).

(** Lines 54-59: the length check on [argv[counter++]] and the store of
    [argv[counter++][0]]. *)
Definition read_sub_value (argv : list string) (a : args) (counter : Z)
  : M (args * Z) :=
  sub_value <- argv_at argv counter ;;
  let counter := counter + 1 in
  n <- strlen sub_value ;;
  if negb (n =? 1)%Z then
    printf "arg sub_value need to be size 1" ;; exit 1
  else
    q <- argv_at argv counter ;;
    let counter := counter + 1 in
    c <- index0 q ;;
    ret (set_sub_value a c, counter).

(** Lines 62-82: the command code scanned from [cmd_raw] and mapped to the
    enumeration. *)
Definition decode_cmd (cmd_raw : cptr) (a : args) : M args :=
  let cmd := 0 in
  cmd <- sscanf_ld cmd_raw cmd ;;
  match cmd with
  | 0 => ret (set_cmd a OP1)
  | 1 => ret (set_cmd a OP2)
  | 2 => ret (set_cmd a OP3)
  | 3 => ret (set_cmd a OP4)
  | _ => printf "Invalid cmd" ;; exit 1
  end.

(** Lines 61-82: [cmd_raw = argv[counter++]] and the decoding. *)
Definition read_cmd (argv : list string) (a : args) (counter : Z)
  : M args :=
  cmd_raw <- argv_at argv counter ;;
  decode_cmd cmd_raw a.

(** The locals of [parse_arg] when control reaches line 61. *)
Definition parse_fields (junk : args) (argc : Z) (argv : list string)
  : M (args * Z) :=
  check_argc argc ;;
  '(a, counter) <- read_value argc argv junk ;;
  read_sub_value argv a counter.

(** [parse_arg], lines 42-83.  [junk] is whatever the stack holds where
    the local [args] is placed. *)
Definition parse_arg (junk : args) (argc : Z) (argv : list string)
  : M args :=
  '(a, counter) <- parse_fields junk argc argv ;;
  read_cmd argv a counter.

(** [main], lines 85-90. *)
Definition main (junk : args) (argc : Z) (argv : list string) : M Z :=
  a <- parse_arg junk argc argv ;;
  p <- alloc a ;;
  print_arg p ;;
  ret 0.

(** One process: [argv] is the whole vector, program name first. *)
Definition run (junk : args) (argv : list string) : outcome Z :=
  main junk (Z.of_nat (length argv)) argv boot.

(** [needle] occurs in [hay]. *)
Fixpoint contains (needle hay : string) : bool :=
  String.prefix needle hay ||
  match hay with
  | EmptyString => false
  | String _ hay' => contains needle hay'
  end.

(** [c] is one of the characters of [s]. *)
Fixpoint occurs (c : ascii) (s : string) : bool :=
  match s with
  | EmptyString => false
  | String x s' => Ascii.eqb c x || occurs c s'
  end.

(** A stack content for the uninitialised local of [parse_arg], used where
    a run has to be evaluated on concrete data. *)
Definition stale : args := mk_args 7 "z" 9.

(** ** Reading the argument vector *)

Section Argv.

Variable argv : list string.
Variable m : machine.

Lemma argv_at_token (i : nat) (s : string) :
  nth_error argv i = Some s ->
  argv_at argv (Z.of_nat i) m = Ret (Str s) m.
Proof.
  intros H. unfold argv_at.
  destruct (Z.ltb_spec (Z.of_nat i) 0) as [Hneg | _]; [lia |].
  rewrite Nat2Z.id, H. reflexivity.
Qed.

Lemma argv_at_terminator :
  argv_at argv (Z.of_nat (length argv)) m = Ret NULL m.
Proof.
  unfold argv_at.
  destruct (Z.ltb_spec (Z.of_nat (length argv)) 0) as [Hneg | _]; [lia |].
  rewrite Nat2Z.id.
  assert (E : nth_error argv (length argv) = None)
    by (apply nth_error_None; lia).
  rewrite E, Z.eqb_refl. reflexivity.
Qed.

End Argv.

(** An accepted vector is the program name, at most one [value] token, the
    [sub_value] token and the command token. *)
Lemma short_prefix {A} (pre : list A) :
  (length pre <= 1)%nat -> pre = [] \/ exists v, pre = [v].
Proof.
  destruct pre as [| v [| w pre]]; simpl; intros H.
  - now left.
  - right. now exists v.
  - lia.
Qed.

(** Array indices are small literals; this brings [argv[k]] to a list
    lookup that computes. *)
Ltac eval_index :=
  repeat match goal with
         | |- context [Pos.to_nat ?p] =>
             let n := eval compute in (Pos.to_nat p) in
             change (Pos.to_nat p) with n
         end.

Ltac step_through :=
  unfold parse_arg, parse_fields, check_argc, read_value, read_sub_value,
    read_cmd, bind;
  repeat (progress (cbn; eval_index)).

Lemma parse_fields_accepts junk prog pre sv c m :
  (length pre <= 1)%nat ->
  Libc.strlen sv = 1 ->
  let argv := (prog :: pre ++ [sv; c])%list in
  let argc := Z.of_nat (length argv) in
  exists v,
    parse_fields junk argc argv m
    = Ret (mk_args v (Libc.char0 c) (cmd junk), argc) m.
Proof.
  intros Hpre Hlen.
  destruct (short_prefix pre Hpre) as [-> | [tok ->]]; cbn.
  - exists 0. step_through. rewrite Hlen. reflexivity.
  - exists (Libc.conv_d tok (value junk)).
    step_through. rewrite Hlen. reflexivity.
Qed.

(** What the command step does with a token, by the number it scans to. *)
Lemma decode_cmd_accepts s a m :
  0 <= Libc.conv_ld s 0 <= 3 ->
  decode_cmd (Str s) a m = Ret (set_cmd a (Libc.conv_ld s 0)) m.
Proof.
  intros Hk. unfold decode_cmd, sscanf_ld, bind, ret.
  destruct (Libc.conv_ld s 0) as [| [[q | q |] | [q | q |] |] | q];
    try lia; reflexivity.
Qed.

(** ** The parser *)

(** C5.  An invocation whose argument count, the program name not counted,
    is neither 2 nor 3 prints the arity diagnostic and ends with status 1;
    no [struct args] object has come to life. *)
Theorem wrong_arity_exits junk argv :
  Z.of_nat (length argv) - 1 <> 2 ->
  Z.of_nat (length argv) - 1 <> 3 ->
  run junk argv = Exit 1 (mk_machine "Need 2 or 3 args" []).
Proof.
  intros H2 H3. unfold run, main, parse_arg, parse_fields, check_argc, bind.
  destruct (Z.eqb_spec (Z.of_nat (length argv)) 3) as [E | _]; [lia |].
  destruct (Z.eqb_spec (Z.of_nat (length argv)) 4) as [E | _]; [lia |].
  reflexivity.
Qed.

Lemma wrong_arity_exits_witness :
  run stale ["prog"; "1"; "2"; "a"; "3"]
  = Exit 1 (mk_machine "Need 2 or 3 args" []).
Proof. apply wrong_arity_exits; simpl; lia. Defined.

(** C6.  With 2 or 3 argument tokens of which the one in the [sub_value]
    position does not have length 1, the program prints the length
    diagnostic and ends with status 1; the diagnostic is all of the output. *)
Theorem bad_length_exits junk prog pre sv c :
  (length pre <= 1)%nat ->
  Libc.strlen sv <> 1 ->
  run junk (prog :: pre ++ [sv; c])%list
  = Exit 1 (mk_machine "arg sub_value need to be size 1" []).
Proof.
  intros Hpre Hlen.
  destruct (short_prefix pre Hpre) as [-> | [tok ->]];
    unfold run, main; step_through;
    destruct (Z.eqb_spec (Libc.strlen sv) 1) as [E | _];
    solve [contradiction | reflexivity].
Qed.

Lemma bad_length_exits_witness :
  run stale ["prog"; "bb"; "2"]
  = Exit 1 (mk_machine "arg sub_value need to be size 1" []).
Proof.
  apply (bad_length_exits stale "prog" [] "bb" "2"); simpl; lia.
Defined.

(** C9.  With an accepted arity and a [sub_value] token of length 1,
    [counter] equals [argc] when the command token is fetched, [argv[argc]]
    is the null pointer that ends the vector, and [sscanf] is handed that
    null pointer: [parse_arg] never returns on such an input. *)
Theorem command_read_hits_terminator junk prog pre sv c m :
  (length pre <= 1)%nat ->
  Libc.strlen sv = 1 ->
  let argv := (prog :: pre ++ [sv; c])%list in
  let argc := Z.of_nat (length argv) in
  (exists a, parse_fields junk argc argv m = Ret (a, argc) m)
  /\ argv_at argv argc m = Ret NULL m
  /\ parse_arg junk argc argv m = Fault NullDeref m
  /\ main junk argc argv m = Fault NullDeref m.
Proof.
  intros Hpre Hlen argv argc.
  destruct (parse_fields_accepts junk prog pre sv c m Hpre Hlen) as [v Hv].
  fold argv argc in Hv.
  assert (Hend : argv_at argv argc m = Ret NULL m)
    by apply argv_at_terminator.
  split; [eexists; exact Hv | split; [exact Hend |]].
  assert (Hparse : parse_arg junk argc argv m = Fault NullDeref m).
  { unfold parse_arg, bind. rewrite Hv.
    unfold read_cmd, bind. rewrite Hend. reflexivity. }
  split; [exact Hparse |].
  unfold main, bind. rewrite Hparse. reflexivity.
Qed.

Lemma command_read_hits_terminator_witness :
  Libc.strlen "a" = 1
  /\ run stale ["prog"; "a"; "1"] = Fault NullDeref boot.
Proof.
  split; [reflexivity |].
  apply (command_read_hits_terminator stale "prog" [] "a" "1" boot);
    [simpl; lia | reflexivity].
Defined.

(** C1.  On the tokens ["a"; "1"] the token checked to have length 1 is
    "a", and the character stored in [sub_value] is '1', the first character
    of the token after it. *)
Theorem sub_value_read_one_token_late junk :
  Libc.strlen "a" = 1
  /\ exists a,
       parse_fields junk 3 ["prog"; "a"; "1"] boot = Ret (a, 3) boot
       /\ sub_value a = "1"%char
       /\ sub_value a <> Libc.char0 "a".
Proof.
  split; [reflexivity |].
  exists (mk_args 0 "1" (cmd junk)).
  split; [reflexivity | split; [reflexivity | discriminate]].
Qed.

(** C8.  On the tokens ["x"; "a"; "0"] the scan of "x" matches nothing and
    stores nothing: [value] keeps what the uninitialised local held. *)
Theorem unparseable_value_left_as_found junk :
  Libc.scan_decimal "x" = None
  /\ exists a,
       read_value 4 ["prog"; "x"; "a"; "0"] junk boot = Ret (a, 2) boot
       /\ value a = value junk.
Proof.
  split; [reflexivity |].
  exists (set_value junk (value junk)). split; reflexivity.
Qed.

(** C3, as the code has it.  The command step decides by the number the
    token scans to, 0 when nothing matches.  A scan outside 0..3 makes it
    print "Invalid cmd" and end the process with status 1.  A scan [k] in
    0..3 is accepted: the step returns with [cmd] set to command [k] and
    writes nothing.  So a token on which the scan matches nothing selects
    the first command. *)
Theorem decode_cmd_by_scanned_code s a m :
  (Libc.conv_ld s 0 < 0 \/ 3 < Libc.conv_ld s 0 ->
   decode_cmd (Str s) a m
   = Exit 1 (mk_machine (stdout m ++ "Invalid cmd") (objects m)))
  /\ (0 <= Libc.conv_ld s 0 <= 3 ->
      decode_cmd (Str s) a m = Ret (set_cmd a (Libc.conv_ld s 0)) m)
  /\ (Libc.scan_decimal s = None ->
      decode_cmd (Str s) a m = Ret (set_cmd a OP1) m).
Proof.
  split; [| split].
  - intros Hk. unfold decode_cmd, sscanf_ld, bind, ret.
    destruct (Libc.conv_ld s 0) as [| [[q | q |] | [q | q |] |] | q];
      try lia; reflexivity.
  - apply decode_cmd_accepts.
  - intros Hs.
    assert (E : Libc.conv_ld s 0 = 0)
      by (unfold Libc.conv_ld; rewrite Hs; reflexivity).
    rewrite (decode_cmd_accepts s a m) by (rewrite E; lia).
    rewrite E. reflexivity.
Qed.

Lemma decode_cmd_by_scanned_code_witness :
  decode_cmd (Str "9") stale boot = Exit 1 (mk_machine "Invalid cmd" [])
  /\ decode_cmd (Str "2") stale boot = Ret (set_cmd stale OP3) boot
  /\ decode_cmd (Str "3x") stale boot = Ret (set_cmd stale OP4) boot
  /\ decode_cmd (Str "abc") stale boot = Ret (set_cmd stale OP1) boot.
Proof.
  split; [| split; [| split]].
  - apply (decode_cmd_by_scanned_code "9" stale boot).
    right. vm_compute. reflexivity.
  - apply (proj1 (proj2 (decode_cmd_by_scanned_code "2" stale boot))).
    vm_compute. split; discriminate.
  - apply (proj1 (proj2 (decode_cmd_by_scanned_code "3x" stale boot))).
    vm_compute. split; discriminate.
  - apply (proj2 (proj2 (decode_cmd_by_scanned_code "abc" stale boot))).
    reflexivity.
Defined.

(** C3 as stated fails: the final token "abc" is none of "0", "1", "2",
    "3", yet the run does not end with status 1 and prints no diagnostic;
    and the command step itself takes "abc", which scans to 0, for the
    first command. *)
Lemma final_token_abc_not_rejected :
  exit_status (run stale ["prog"; "a"; "abc"]) <> Some 1
  /\ stdout (final (run stale ["prog"; "a"; "abc"])) = EmptyString
  /\ decode_cmd (Str "abc") stale boot = Ret (set_cmd stale OP1) boot.
Proof.
  split; [discriminate | split; reflexivity].
Qed.

(** ** Text on standard output *)






Lemma append_assoc (s t u : string) : (s ++ t) ++ u = s ++ (t ++ u).
Proof. induction s as [| x s IH]; simpl; [| rewrite IH]; reflexivity. Qed.

(** ** The printer *)

Lemma bind_Ret {A B} (c : M A) (k : A -> M B) m a m' :
  c m = Ret a m' -> bind c k m = k a m'.
Proof. intros H. unfold bind. rewrite H. reflexivity. Qed.

Lemma load_live {F} (field : args -> F) p m a :
  nth_error (objects m) p = Some a -> load field p m = Ret (field a) m.
Proof. intros H. unfold load. rewrite H. reflexivity. Qed.

(** One statement of [print_arg] executed: a field read through the
    pointer [H] says is live, or a [printf]. *)
Ltac returns H :=
  first [ apply load_live; exact H
        | reflexivity
        | (erewrite bind_Ret by returns H); returns H ].

Ltac exec H := erewrite bind_Ret by returns H.

(** Every run of [print_arg] on a live object: the text of the two fields,
    then the arm of the [switch]. *)
Lemma print_arg_run p m a :
  nth_error (objects m) p = Some a ->
  let fields :=
    (if (value a =? 0)%Z then EmptyString
     else "value: " ++ Libc.fmt_d (value a))
    ++ "sub_value " ++ Libc.fmt_d (Libc.int_of_char (sub_value a)) in
  print_arg p m =
  match cmd a with
  | 0 => Ret tt (mk_machine (stdout m ++ fields ++ "OP1") (objects m))
  | 1 => Ret tt (mk_machine (stdout m ++ fields ++ "OP2") (objects m))
  | 2 => Ret tt (mk_machine (stdout m ++ fields ++ "OP3") (objects m))
  | 3 => Ret tt (mk_machine (stdout m ++ fields ++ "OP4") (objects m))
  | _ => Exit 1 (mk_machine (stdout m ++ fields ++ "INVALID") (objects m))
  end.
Proof.
  intros Hp fields. subst fields. unfold print_arg.
  exec Hp.
  destruct (value a =? 0)%Z; cbn [negb].
  - do 4 exec Hp.
    destruct (cmd a) as [| [[q | q |] | [q | q |] |] | q];
      unfold bind, printf, exit; cbn [stdout objects];
      rewrite ?append_assoc; reflexivity.
  - do 4 exec Hp.
    destruct (cmd a) as [| [[q | q |] | [q | q |] |] | q];
      unfold bind, printf, exit; cbn [stdout objects];
      rewrite ?append_assoc; reflexivity.
Qed.

(** C2 as stated fails: for the first command the text written is
    "sub_value 97OP1"; the word "First" is not in it. *)
Lemma first_command_label_is_not_First :
  print_arg 0 (mk_machine EmptyString [mk_args 0 "a" OP1])
  = Ret tt (mk_machine "sub_value 97OP1" [mk_args 0 "a" OP1])
  /\ contains "First"
       (stdout (final (print_arg 0
                         (mk_machine EmptyString [mk_args 0 "a" OP1]))))
     = false.
Proof. split; reflexivity. Qed.

(** C2, as the code has it.  For a record whose command is one of the four
    enumerators, [print_arg] returns after writing the fields and then the
    enumerator's own name: "OP1", "OP2", "OP3" or "OP4". *)
Theorem print_arg_emits_enumerator_name p m a :
  nth_error (objects m) p = Some a ->
  let fields :=
    (if (value a =? 0)%Z then EmptyString
     else "value: " ++ Libc.fmt_d (value a))
    ++ "sub_value " ++ Libc.fmt_d (Libc.int_of_char (sub_value a)) in
  (cmd a = OP1 ->
   print_arg p m
   = Ret tt (mk_machine (stdout m ++ fields ++ "OP1") (objects m)))
  /\ (cmd a = OP2 ->
      print_arg p m
      = Ret tt (mk_machine (stdout m ++ fields ++ "OP2") (objects m)))
  /\ (cmd a = OP3 ->
      print_arg p m
      = Ret tt (mk_machine (stdout m ++ fields ++ "OP3") (objects m)))
  /\ (cmd a = OP4 ->
      print_arg p m
      = Ret tt (mk_machine (stdout m ++ fields ++ "OP4") (objects m))).
Proof.
  intros Hp fields. pose proof (print_arg_run p m a Hp) as Hrun.
  cbv zeta in Hrun. fold fields in Hrun.
  repeat split; intros Hk; rewrite Hrun, Hk; reflexivity.
Qed.

Lemma print_arg_emits_enumerator_name_witness :
  print_arg 0 (mk_machine EmptyString [mk_args 5 "a" OP3])
  = Ret tt (mk_machine "value: 5sub_value 97OP3" [mk_args 5 "a" OP3]).
Proof.
  apply (print_arg_emits_enumerator_name 0
           (mk_machine EmptyString [mk_args 5 "a" OP3]) (mk_args 5 "a" OP3));
    reflexivity.
Defined.

(** C10.  [print_arg] only reads through its pointer: whatever the outcome,
    the objects are as they were, and when it returns the record it was
    given has the same [value], [sub_value] and [cmd]. *)
Theorem print_arg_leaves_record p m a :
  nth_error (objects m) p = Some a ->
  objects (final (print_arg p m)) = objects m
  /\ forall m', print_arg p m = Ret tt m' ->
       exists a', nth_error (objects m') p = Some a'
                  /\ value a' = value a
                  /\ sub_value a' = sub_value a
                  /\ cmd a' = cmd a.
Proof.
  intros Hp.
  assert (Hobj : objects (final (print_arg p m)) = objects m).
  { rewrite (print_arg_run p m a Hp).
    destruct (cmd a) as [| [[q | q |] | [q | q |] |] | q]; reflexivity. }
  split; [exact Hobj |].
  intros m' Hret. rewrite Hret in Hobj. simpl in Hobj.
  exists a. rewrite Hobj. auto.
Qed.

Lemma print_arg_leaves_record_witness :
  print_arg 0 (mk_machine EmptyString [mk_args 5 "a" OP1])
  = Ret tt (mk_machine "value: 5sub_value 97OP1" [mk_args 5 "a" OP1])
  /\ objects (final (print_arg 0
                        (mk_machine EmptyString [mk_args 5 "a" OP1])))
     = [mk_args 5 "a" OP1].
Proof.
  split; [reflexivity |].
  apply (print_arg_leaves_record 0
           (mk_machine EmptyString [mk_args 5 "a" OP1]) (mk_args 5 "a" OP1)).
  reflexivity.
Defined.




(** ** The first scenario of the specification: tokens ["5"; "a"; "0"] *)




(** ** Decimal text read back

    What [%d] writes is what [%d] and [%ld] read. *)

Lemma scan_digits_step acc c k s :
  Libc.digit_of c = Some k ->
  Libc.scan_digits acc (String c s) = Libc.scan_digits (10 * acc + k) s.
Proof. intros H. cbn [Libc.scan_digits]. rewrite H. reflexivity. Qed.

Ltac read_digit :=
  cbn [NilEmpty.string_of_uint Pos.of_uint_acc Pos.of_uint];
  erewrite scan_digits_step by reflexivity;
  match goal with
  | |- context [Z.of_N (N_of_ascii ?c)] =>
      let v := eval compute in (Z.of_N (N_of_ascii c)) in
      change (Z.of_N (N_of_ascii c)) with v
  end.

Lemma scan_digits_uint_acc d p :
  Libc.scan_digits (Z.pos p) (NilEmpty.string_of_uint d)
  = Z.pos (Pos.of_uint_acc d p).
Proof.
  revert p. induction d; intros p; [reflexivity | ..];
    read_digit; rewrite <- IHd; f_equal; lia.
Qed.

Lemma scan_digits_uint d :
  Libc.scan_digits 0 (NilEmpty.string_of_uint d) = Z.of_N (Pos.of_uint d).
Proof.
  induction d; [reflexivity | read_digit; exact IHd | ..];
    read_digit; cbn [Z.of_N]; rewrite <- scan_digits_uint_acc; reflexivity.
Qed.

Lemma scan_unsigned_uint d :
  d <> Decimal.Nil ->
  Libc.scan_unsigned (NilEmpty.string_of_uint d)
  = Some (Z.of_N (Pos.of_uint d)).
Proof.
  intros Hd. rewrite <- scan_digits_uint.
  destruct d; [contradiction | reflexivity ..].
Qed.

Lemma scan_decimal_uint d :
  d <> Decimal.Nil ->
  Libc.scan_decimal (NilEmpty.string_of_uint d)
  = Some (Z.of_N (Pos.of_uint d)).
Proof.
  intros Hd. rewrite <- (scan_unsigned_uint d Hd).
  destruct d; [contradiction | reflexivity ..].
Qed.

Lemma pos_to_uint_not_nil p : Pos.to_uint p <> Decimal.Nil.
Proof.
  intros E. pose proof (DecimalPos.Unsigned.of_to p) as H.
  rewrite E in H. discriminate H.
Qed.

Lemma string_of_uint_not_nil d :
  d <> Decimal.Nil ->
  NilZero.string_of_uint d = NilEmpty.string_of_uint d.
Proof. destruct d; [contradiction | reflexivity ..]. Qed.

Lemma scan_decimal_minus s :
  Libc.scan_decimal (String "-" s)
  = option_map Z.opp (Libc.scan_unsigned s).
Proof. reflexivity. Qed.

Lemma scan_decimal_fmt_d z : Libc.scan_decimal (Libc.fmt_d z) = Some z.
Proof.
  unfold Libc.fmt_d. destruct z as [| p | p]; [reflexivity | |];
    cbn [Z.to_int NilZero.string_of_int];
    rewrite (string_of_uint_not_nil _ (pos_to_uint_not_nil p)).
  - rewrite (scan_decimal_uint _ (pos_to_uint_not_nil p)),
      DecimalPos.Unsigned.of_to.
    reflexivity.
  - rewrite scan_decimal_minus,
      (scan_unsigned_uint _ (pos_to_uint_not_nil p)),
      DecimalPos.Unsigned.of_to.
    reflexivity.
Qed.

Lemma conv_ld_fmt_d k old :
  Libc.LONG_MIN <= k <= Libc.LONG_MAX -> Libc.conv_ld (Libc.fmt_d k) old = k.
Proof.
  intros Hk. unfold Libc.conv_ld. rewrite scan_decimal_fmt_d.
  unfold Libc.strtol_clamp. lia.
Qed.

Lemma conv_d_fmt_d v old :
  - 2 ^ 31 <= v < 2 ^ 31 -> Libc.conv_d (Libc.fmt_d v) old = v.
Proof.
  intros Hv. unfold Libc.conv_d. rewrite scan_decimal_fmt_d.
  assert (E : Libc.strtol_clamp v = v).
  { unfold Libc.strtol_clamp, Libc.LONG_MIN, Libc.LONG_MAX.
    change (2 ^ 31) with 2147483648 in Hv.
    change (2 ^ 63) with 9223372036854775808. lia. }
  rewrite E. unfold Libc.int_of_long.
  rewrite Z.mod_small; lia.
Qed.

(** X5.  The value step reads back what [print_arg] writes for [value]:
    handed the [%d] text of an [int], it stores that [int], whatever the
    local held before. *)
Theorem read_value_of_printed_value junk prog sv c v m :
  - 2 ^ 31 <= v < 2 ^ 31 ->
  read_value 4 [prog; Libc.fmt_d v; sv; c] junk m
  = Ret (set_value junk v, 2) m.
Proof.
  intros Hv. unfold read_value.
  change (4 =? 4)%Z with true. cbv iota.
  assert (Hp : argv_at [prog; Libc.fmt_d v; sv; c] 1 m
               = Ret (Str (Libc.fmt_d v)) m) by reflexivity.
  rewrite (bind_Ret _ _ _ _ _ Hp).
  unfold sscanf_d, bind, ret.
  rewrite (conv_d_fmt_d v (value junk) Hv). reflexivity.
Qed.

Lemma read_value_of_printed_value_witness :
  read_value 4 ["prog"; Libc.fmt_d (-42); "a"; "0"] stale boot
  = Ret (set_value stale (-42), 2) boot.
Proof. apply read_value_of_printed_value. lia. Defined.

(** X6.  The command step decides by the number: handed the decimal text
    of a [long] [k], it selects command [k] silently when [0 <= k <= 3] and
    otherwise prints "Invalid cmd" and ends the process with status 1. *)
Theorem decode_cmd_of_printed_code k a m :
  Libc.LONG_MIN <= k <= Libc.LONG_MAX ->
  decode_cmd (Str (Libc.fmt_d k)) a m
  = if ((0 <=? k) && (k <=? 3))%Z
    then Ret (set_cmd a k) m
    else Exit 1 (mk_machine (stdout m ++ "Invalid cmd") (objects m)).
Proof.
  intros Hk. unfold decode_cmd, sscanf_ld, bind, ret.
  rewrite (conv_ld_fmt_d k 0 Hk).
  destruct k as [| [[q | q |] | [q | q |] |] | q]; reflexivity.
Qed.

Lemma decode_cmd_of_printed_code_witness :
  decode_cmd (Str (Libc.fmt_d 2)) stale boot = Ret (set_cmd stale OP3) boot
  /\ decode_cmd (Str (Libc.fmt_d (-1))) stale boot
     = Exit 1 (mk_machine "Invalid cmd" []).
Proof.
  split.
  - apply (decode_cmd_of_printed_code 2 stale boot); vm_compute;
      split; discriminate.
  - apply (decode_cmd_of_printed_code (-1) stale boot); vm_compute;
      split; discriminate.
Defined.

(** ** Every run of the program *)

Lemma run_bad_argc junk argv :
  Z.of_nat (length argv) <> 3 ->
  Z.of_nat (length argv) <> 4 ->
  run junk argv = Exit 1 (mk_machine "Need 2 or 3 args" []).
Proof.
  intros H3 H4. unfold run, main, parse_arg, parse_fields, check_argc, bind.
  destruct (Z.eqb_spec (Z.of_nat (length argv)) 3) as [E | _]; [lia |].
  destruct (Z.eqb_spec (Z.of_nat (length argv)) 4) as [E | _]; [lia |].
  reflexivity.
Qed.

Lemma run_good_argc junk prog pre sv c :
  (length pre <= 1)%nat ->
  run junk (prog :: pre ++ [sv; c])%list
  = if (Libc.strlen sv =? 1)%Z
    then Fault NullDeref boot
    else Exit 1 (mk_machine "arg sub_value need to be size 1" []).
Proof.
  intros Hpre.
  destruct (short_prefix pre Hpre) as [-> | [tok ->]];
    unfold run, main; step_through;
    destruct (Libc.strlen sv =? 1)%Z; reflexivity.
Qed.

(** The shapes an argument vector can have. *)
Lemma argv_shape (argv : list string) :
  (Z.of_nat (length argv) <> 3 /\ Z.of_nat (length argv) <> 4)
  \/ exists prog pre sv c,
       (length pre <= 1)%nat /\ argv = (prog :: pre ++ [sv; c])%list.
Proof.
  destruct argv as [| prog [| t1 [| t2 [| t3 [| t4 rest]]]]];
    try (left; cbn [length]; lia).
  - right. exists prog, [], t1, t2. split; [cbn; lia | reflexivity].
  - right. exists prog, [t1], t2, t3. split; [cbn; lia | reflexivity].
Qed.

(** X1.  Whatever the argument vector and whatever the stack held, a run
    ends in one of three ways: the arity diagnostic with status 1, the
    length diagnostic with status 1, or the null pointer handed to [sscanf]
    with nothing written.  No run ends with status 0, and none gets as far
    as the object [print_arg] would be given. *)
Theorem run_never_succeeds junk argv :
  (run junk argv = Exit 1 (mk_machine "Need 2 or 3 args" [])
   \/ run junk argv
      = Exit 1 (mk_machine "arg sub_value need to be size 1" [])
   \/ run junk argv = Fault NullDeref boot)
  /\ exit_status (run junk argv) <> Some 0
  /\ objects (final (run junk argv)) = [].
Proof.
  assert (H : run junk argv = Exit 1 (mk_machine "Need 2 or 3 args" [])
              \/ run junk argv
                 = Exit 1 (mk_machine "arg sub_value need to be size 1" [])
              \/ run junk argv = Fault NullDeref boot).
  { destruct (argv_shape argv) as [[H3 H4] | (prog & pre & sv & c & Hpre & ->)].
    - left. now apply run_bad_argc.
    - rewrite (run_good_argc junk prog pre sv c Hpre).
      destruct (Libc.strlen sv =? 1)%Z; auto. }
  split; [exact H |].
  destruct H as [-> | [-> | ->]]; split; solve [discriminate | reflexivity].
Qed.

(** X2.  The [default] arm of [print_arg]: for a record whose command is
    none of the four enumerators, the two field segments are written first,
    then "INVALID", and the process ends with status 1. *)
Theorem print_arg_invalid_tag p m a :
  nth_error (objects m) p = Some a ->
  cmd a < 0 \/ 3 < cmd a ->
  print_arg p m
  = Exit 1
      (mk_machine
         (stdout m
          ++ (if (value a =? 0)%Z then EmptyString
              else "value: " ++ Libc.fmt_d (value a))
          ++ "sub_value " ++ Libc.fmt_d (Libc.int_of_char (sub_value a))
          ++ "INVALID")
         (objects m)).
Proof.
  intros Hp Hk. rewrite (print_arg_run p m a Hp). cbv zeta.
  rewrite !append_assoc.
  destruct (cmd a) as [| [[q | q |] | [q | q |] |] | q];
    try lia; reflexivity.
Qed.

Lemma print_arg_invalid_tag_witness :
  print_arg 0 (mk_machine EmptyString [mk_args 0 "a" 7])
  = Exit 1 (mk_machine "sub_value 97INVALID" [mk_args 0 "a" 7]).
Proof.
  apply (print_arg_invalid_tag 0
           (mk_machine EmptyString [mk_args 0 "a" 7]) (mk_args 0 "a" 7));
    [reflexivity | right; reflexivity].
Defined.

(** When the command step returns, it has written nothing, has changed only
    the [cmd] field, and that field is one of the four enumerators. *)
Lemma decode_cmd_inv p a m a' m' :
  decode_cmd p a m = Ret a' m' ->
  m' = m /\ a' = set_cmd a (cmd a') /\ 0 <= cmd a' <= 3.
Proof.
  destruct p as [| s]; [discriminate |].
  unfold decode_cmd, sscanf_ld, bind, ret.
  destruct (Libc.conv_ld s 0) as [| [[q | q |] | [q | q |] |] | q];
    intros H; try discriminate H; injection H as <- <-;
    (split; [reflexivity | split; [reflexivity |]]);
    cbn; unfold OP1, OP2, OP3, OP4; lia.
Qed.

(** X3.  A record that comes out of the command step has a command among
    [OP1] .. [OP4]; its [value] and [sub_value] are as they went in, and the
    step has written nothing. *)
Theorem decode_cmd_returns_enumerator p a m a' m' :
  decode_cmd p a m = Ret a' m' ->
  m' = m
  /\ value a' = value a
  /\ sub_value a' = sub_value a
  /\ (cmd a' = OP1 \/ cmd a' = OP2 \/ cmd a' = OP3 \/ cmd a' = OP4).
Proof.
  intros H. destruct (decode_cmd_inv p a m a' m' H) as (Hm & Ha & Hk).
  split; [exact Hm |]. rewrite Ha at 1 2. cbn [value sub_value set_cmd].
  split; [reflexivity | split; [reflexivity |]].
  unfold OP1, OP2, OP3, OP4. lia.
Qed.

Lemma decode_cmd_returns_enumerator_witness :
  boot = boot
  /\ value (set_cmd stale OP3) = value stale
  /\ sub_value (set_cmd stale OP3) = sub_value stale
  /\ (cmd (set_cmd stale OP3) = OP1 \/ cmd (set_cmd stale OP3) = OP2
      \/ cmd (set_cmd stale OP3) = OP3 \/ cmd (set_cmd stale OP3) = OP4).
Proof.
  apply (decode_cmd_returns_enumerator (Str " +2") stale boot).
  reflexivity.
Defined.

(** X4.  The command step and the printer together: a record that the
    command step returned never takes [print_arg] into its [default] arm;
    [print_arg] returns, the fields written and one of the four labels
    after them. *)
Theorem decoded_record_prints_a_label p a m a' m' q w :
  decode_cmd p a m = Ret a' m' ->
  nth_error (objects w) q = Some a' ->
  exists label,
    In label ["OP1"; "OP2"; "OP3"; "OP4"]
    /\ print_arg q w
       = Ret tt
           (mk_machine
              (stdout w
               ++ (if (value a' =? 0)%Z then EmptyString
                   else "value: " ++ Libc.fmt_d (value a'))
               ++ "sub_value "
               ++ Libc.fmt_d (Libc.int_of_char (sub_value a'))
               ++ label)
              (objects w)).
Proof.
  intros H Hq. destruct (decode_cmd_inv p a m a' m' H) as (_ & _ & Hk).
  rewrite (print_arg_run q w a' Hq). cbv zeta. rewrite !append_assoc.
  destruct (cmd a') as [| [[r | r |] | [r | r |] |] | r]; try lia;
    eexists; (split; [| reflexivity]); cbn; tauto.
Qed.

Lemma decoded_record_prints_a_label_witness :
  exists label,
    In label ["OP1"; "OP2"; "OP3"; "OP4"]
    /\ print_arg 0 (mk_machine EmptyString [set_cmd stale OP2])
       = Ret tt
           (mk_machine
              (EmptyString
               ++ (if (value (set_cmd stale OP2) =? 0)%Z then EmptyString
                   else "value: " ++ Libc.fmt_d (value (set_cmd stale OP2)))
               ++ "sub_value "
               ++ Libc.fmt_d (Libc.int_of_char (sub_value (set_cmd stale OP2)))
               ++ label)
              [set_cmd stale OP2]).
Proof.
  apply (decoded_record_prints_a_label (Str "1") stale boot
           (set_cmd stale OP2) boot 0
           (mk_machine EmptyString [set_cmd stale OP2]));
    reflexivity.
Defined.

(** X7.  The locals of [parse_arg] after the field steps, for every vector
    of accepted arity whose [sub_value] token has length 1: nothing has been
    written, [counter] equals [argc], [value] is 0 with two tokens and the
    scan of the first token with three, [cmd] is still what the stack held,
    and [sub_value] holds the first character of the last token. *)
Theorem parse_fields_on_accepted junk prog pre sv c m :
  (length pre <= 1)%nat ->
  Libc.strlen sv = 1 ->
  parse_fields junk (Z.of_nat (length (prog :: pre ++ [sv; c])%list))
    (prog :: pre ++ [sv; c])%list m
  = Ret (mk_args
           (match pre with
            | [] => 0
            | tok :: _ => Libc.conv_d tok (value junk)
            end)
           (Libc.char0 c)
           (cmd junk),
         Z.of_nat (length (prog :: pre ++ [sv; c])%list))
      m.
Proof.
  intros Hpre Hlen.
  destruct (short_prefix pre Hpre) as [-> | [tok ->]]; cbn;
    step_through; rewrite Hlen; reflexivity.
Qed.

Lemma parse_fields_on_accepted_witness :
  parse_fields stale 4 ["prog"; "12"; "a"; "3"] boot
  = Ret (mk_args 12 "3" 9, 4) boot.
Proof.
  apply (parse_fields_on_accepted stale "prog" ["12"] "a" "3" boot);
    [simpl; lia | reflexivity].
Defined.

(** ** The text determines the record *)

Lemma append_inv_head s t u : s ++ t = s ++ u -> t = u.
Proof.
  induction s as [| x s IH]; simpl; intros H; [exact H |].
  injection H as H. auto.
Qed.

(** Two texts that agree are cut alike at the first [c]. *)
Lemma split_at_char c x1 x2 r1 r2 :
  occurs c x1 = false ->
  occurs c x2 = false ->
  x1 ++ String c r1 = x2 ++ String c r2 ->
  x1 = x2 /\ r1 = r2.
Proof.
  revert x2. induction x1 as [| y x1 IH]; intros [| z x2]; simpl;
    intros H1 H2 E.
  - injection E as E. now split.
  - injection E as Ec _. subst z. rewrite Ascii.eqb_refl in H2.
    discriminate H2.
  - injection E as Ec _. subst y. rewrite Ascii.eqb_refl in H1.
    discriminate H1.
  - injection E as Eyz E. subst z.
    apply orb_false_iff in H1. apply orb_false_iff in H2.
    destruct (IH x2 (proj2 H1) (proj2 H2) E) as [-> ->]. now split.
Qed.

(** [%d] writes nothing but digits and a sign. *)
Lemma uint_text_digits c d :
  Libc.digit_of c = None ->
  occurs c (NilEmpty.string_of_uint d) = false.
Proof.
  intros Hc. induction d; simpl; [reflexivity | ..]; rewrite IHd;
    match goal with
    | |- (Ascii.eqb c ?k || false) = false =>
        destruct (Ascii.eqb_spec c k) as [-> | _];
        [vm_compute in Hc; discriminate Hc | reflexivity]
    end.
Qed.

Lemma fmt_d_digits c z :
  Libc.digit_of c = None -> c <> "-"%char ->
  occurs c (Libc.fmt_d z) = false.
Proof.
  intros Hc Hm. unfold Libc.fmt_d.
  assert (Hu : forall d, occurs c (NilZero.string_of_uint d) = false).
  { intros d. destruct d; [| apply (uint_text_digits c _ Hc) ..].
    simpl. destruct (Ascii.eqb_spec c "0") as [-> | _];
      [vm_compute in Hc; discriminate Hc | reflexivity]. }
  destruct (Z.to_int z) as [d | d]; cbn [NilZero.string_of_int occurs].
  - apply Hu.
  - rewrite Hu. destruct (Ascii.eqb_spec c "-"); [contradiction | reflexivity].
Qed.

Lemma fmt_d_inj z1 z2 : Libc.fmt_d z1 = Libc.fmt_d z2 -> z1 = z2.
Proof.
  intros E. apply (f_equal Libc.scan_decimal) in E.
  rewrite !scan_decimal_fmt_d in E. now injection E.
Qed.

Lemma int_of_char_inj c1 c2 :
  Libc.int_of_char c1 = Libc.int_of_char c2 -> c1 = c2.
Proof.
  unfold Libc.int_of_char. intros E.
  pose proof (N_ascii_bounded c1) as B1.
  pose proof (N_ascii_bounded c2) as B2.
  assert (En : N_of_ascii c1 = N_of_ascii c2).
  { destruct (Z.ltb_spec (Z.of_N (N_of_ascii c1)) 128),
             (Z.ltb_spec (Z.of_N (N_of_ascii c2)) 128); lia. }
  rewrite <- (ascii_N_embedding c1), <- (ascii_N_embedding c2), En.
  reflexivity.
Qed.

(** The [sub_value] segment and the label after it give back the character
    code and the label. *)
Lemma code_and_label n1 n2 l1 l2 :
  Libc.fmt_d n1 ++ String "O" l1 = Libc.fmt_d n2 ++ String "O" l2 ->
  n1 = n2 /\ l1 = l2.
Proof.
  intros E.
  destruct (split_at_char "O" _ _ _ _
              (fmt_d_digits "O" n1 eq_refl ltac:(discriminate))
              (fmt_d_digits "O" n2 eq_refl ltac:(discriminate)) E)
    as [En El].
  split; [exact (fmt_d_inj _ _ En) | exact El].
Qed.

(** X8.  Although [print_arg] writes no separators, its text tells records
    apart: two records with commands among the four enumerators, printed
    after the same earlier output, give the same text only if they are the
    same record. *)
Theorem print_arg_text_determines_record p m a q w b :
  nth_error (objects m) p = Some a ->
  nth_error (objects w) q = Some b ->
  0 <= cmd a <= 3 ->
  0 <= cmd b <= 3 ->
  stdout m = stdout w ->
  stdout (final (print_arg p m)) = stdout (final (print_arg q w)) ->
  a = b.
Proof.
  intros Ha Hb Ka Kb Hout E.
  rewrite (print_arg_run p m a Ha), (print_arg_run q w b Hb) in E.
  cbv zeta in E.
  destruct a as [va ca ka], b as [vb cb kb]; cbn [value sub_value cmd] in *.
  assert (Hmain : va = vb /\ Libc.int_of_char ca = Libc.int_of_char cb
                  /\ ka = kb).
  { destruct ka as [| [[r | r |] | [r | r |] |] | r]; try lia;
      destruct kb as [| [[r | r |] | [r | r |] |] | r]; try lia;
      cbn [final stdout] in E; rewrite Hout in E;
      apply append_inv_head in E; rewrite !append_assoc in E;
      destruct (Z.eqb_spec va 0) as [-> | Hva];
      destruct (Z.eqb_spec vb 0) as [-> | Hvb];
      try (simpl in E; discriminate E).
    all: try (change (EmptyString ++ ?s) with s in E;
              apply (append_inv_head "sub_value ") in E;
              apply code_and_label in E; destruct E as [Ec El];
              first [discriminate El | now repeat split]).
    all: apply (append_inv_head "value: ") in E;
      change ("sub_value " ++ ?s) with (String "s" ("ub_value " ++ s)) in E;
      apply split_at_char in E;
      try (apply fmt_d_digits; [reflexivity | discriminate]);
      destruct E as [Ev E]; apply fmt_d_inj in Ev;
      apply (append_inv_head "ub_value ") in E;
      apply code_and_label in E; destruct E as [Ec El];
      first [discriminate El | now repeat split]. }
  destruct Hmain as (-> & Hc & ->).
  apply int_of_char_inj in Hc. subst cb. reflexivity.
Qed.

Lemma print_arg_text_determines_record_witness :
  mk_args 5 "a" OP1 = mk_args 5 "a" OP1.
Proof.
  apply (print_arg_text_determines_record
           0 (mk_machine "x" [mk_args 5 "a" OP1]) (mk_args 5 "a" OP1)
           0 (mk_machine "x" [mk_args 5 "a" OP1]) (mk_args 5 "a" OP1));
    first [reflexivity | vm_compute; split; discriminate].
Defined.
